(** * Math Quest quiz core: a shallow embedding of [src/src/main.rs]

    The quiz generator, the local fallback word problem, the grading pass,
    the per-answer edit handler and the single-slot regenerate handler of
    the Yew application, with the proofs of their specification. *)

From Stdlib Require Import ZArith String Ascii List Lia.
From Stdlib Require Import Numbers.DecimalString.
From Stdlib Require Numbers.DecimalPos.
From stdpp Require Import base list.

Import ListNotations.
Open Scope string_scope.
Open Scope Z_scope.

(** ** Data model *)

Inductive Difficulty := Easy | Moderate | Advanced.

Record QuizConfig := mkConfig {
  num_questions : nat;
  difficulty : Difficulty;
  include_add : bool;
  include_sub : bool;
  include_mul : bool;
  include_div : bool;
  include_words : bool
}.

(** [answer : i32] is a [Z]; every value produced here is far inside the
    i32 range, so no wrap-around arises. *)
Record Question := mkQuestion {
  prompt : string;
  kind : string;
  answer : Z;
  user_answer : string;
  is_correct : option bool
}.

Inductive BaseOp := Add | Sub | Mul | Div.

Definition difficulty_code (d : Difficulty) : string :=
  match d with Easy => "easy" | Moderate => "moderate" | Advanced => "advanced" end.

Definition difficulty_label (d : Difficulty) : string :=
  match d with Easy => "Easy" | Moderate => "Moderate" | Advanced => "Advanced" end.

(** [format!("{x}")] of an integer: its decimal text. *)
Definition fmt_int (x : Z) : string := NilEmpty.string_of_int (Z.to_int x).

(** [format!("Word Problem 🌟 ({})", difficulty_label(&cfg.difficulty))] *)
Definition word_kind (d : Difficulty) : string :=
  "Word Problem 🌟 (" ++ difficulty_label d ++ ")".

Definition loading_prompt : string := "Loading AI word problem...".

(** ** The random source

    [Math::random()] returns a float [r] in [0,1).  A draw is modelled as
    the exact fraction [p/q] with [0 <= p < q]; [rand_int] then computes
    [min + ((r * (max - min + 1) as f64) as i32)], the cast truncating
    towards zero ([Z.quot]).  The source is the list of the draws still to
    come; should it run dry, the draw [0/1] (that is, [r = 0]) is used. *)

Definition draw := (Z * Z)%type.

Definition valid_draw (d : draw) : Prop := 0 <= fst d < snd d.

Definition Rand (A : Type) := list draw -> A * list draw.

Definition next_draw (ds : list draw) : draw * list draw :=
  match ds with
  | [] => ((0, 1), [])
  | d :: ds' => (d, ds')
  end.

Definition rand_int (min max : Z) : Rand Z := fun ds =>
  let '(d, ds') := next_draw ds in
  (min + Z.quot (fst d * (max - min + 1)) (snd d), ds').

(** ** [generate_basic_question] *)

Definition add_range (d : Difficulty) : Z * Z :=
  match d with Easy => (0, 9) | Moderate => (10, 99) | Advanced => (100, 999) end.

Definition mul_range (d : Difficulty) : Z * Z :=
  match d with Easy => (0, 5) | Moderate => (2, 12) | Advanced => (5, 20) end.

Definition div_range (d : Difficulty) : Z * Z :=
  match d with Easy => (1, 9) | Moderate => (2, 12) | Advanced => (5, 20) end.

Definition generate_basic_question (cfg : QuizConfig) (op : BaseOp)
    : Rand (string * Z * string) := fun ds0 =>
  match op with
  | Add =>
      let '(min, max) := add_range (difficulty cfg) in
      let '(a, ds1) := rand_int min max ds0 in
      let '(b, ds2) := rand_int min max ds1 in
      ((fmt_int a ++ " + " ++ fmt_int b ++ " = ?", a + b, "Addition"), ds2)
  | Sub =>
      let '(min, max) := add_range (difficulty cfg) in
      let '(a, ds1) := rand_int min max ds0 in
      let '(b, ds2) := rand_int 0 a ds1 in
      ((fmt_int a ++ " − " ++ fmt_int b ++ " = ?", a - b, "Subtraction"), ds2)
  | Mul =>
      let '(min_f, max_f) := mul_range (difficulty cfg) in
      let '(a, ds1) := rand_int min_f max_f ds0 in
      let '(b, ds2) := rand_int min_f max_f ds1 in
      ((fmt_int a ++ " × " ++ fmt_int b ++ " = ?", a * b, "Multiplication"), ds2)
  | Div =>
      let '(min_q, max_q) := div_range (difficulty cfg) in
      let '(divisor, ds1) := rand_int 1 max_q ds0 in
      let '(quotient, ds2) := rand_int min_q max_q ds1 in
      let dividend := divisor * quotient in
      ((fmt_int dividend ++ " ÷ " ++ fmt_int divisor ++ " = ?", quotient, "Division"), ds2)
  end.

(** ** [generate_fallback_word_problem] *)

(** The Rust literal continues its line with a backslash, which drops the
    line break and the next line's indentation. *)
Definition sticker_prompt (a b : Z) : string :=
  "Kiki has " ++ fmt_int a ++ " stickers. She gets " ++ fmt_int b ++
  " more from a friend. How many stickers does Kiki have now?".

Definition generate_fallback_word_problem (cfg : QuizConfig)
    : Rand (string * Z * string) := fun ds0 =>
  let '(a, ds1) := rand_int 3 15 ds0 in
  let '(b, ds2) := rand_int 2 10 ds1 in
  ((sticker_prompt a b, a + b, word_kind (difficulty cfg)), ds2).

(** The outcome of one fetch-or-fallback resolution, as written in both
    [on_generate] and [on_regen_ai]: [fetched] is the value of
    [fetch_ai_word_problem(&cfg).await], [None] for any failure. *)
Definition resolve_word_problem (cfg : QuizConfig)
    (fetched : option (string * Z * string)) : Rand (string * Z * string) :=
  fun ds =>
  match fetched with
  | Some ok => (ok, ds)
  | None => generate_fallback_word_problem cfg ds
  end.

(** ** [generate_questions_with_ai_placeholders] *)

(** [Question { prompt, kind, answer, user_answer: String::new(), is_correct: None }] *)
Definition new_question (p : string) (k : string) (a : Z) : Question :=
  mkQuestion p k a "" None.

(** The operation vector, pushed in the order Add, Sub, Mul, Div, with
    the forced addition when it is empty and word problems are off. *)
Definition enabled_ops_of (cfg : QuizConfig) : list BaseOp :=
  let ops := ((if include_add cfg then [Add] else []) ++
              (if include_sub cfg then [Sub] else []) ++
              (if include_mul cfg then [Mul] else []) ++
              (if include_div cfg then [Div] else []))%list in
  if (match ops with [] => true | _ => false end) && negb (include_words cfg)
  then (ops ++ [Add])%list else ops.

(** [v[i as usize]]: [None] is the index panic.  A negative [i32] cast to
    [usize] is at least [2^63], out of bounds for every vector. *)
Definition vec_index {A} (v : list A) (i : Z) : option A :=
  if i <? 0 then None else nth_error v (Z.to_nat i).

(** [Vec::get_mut(idx)] followed by an in-place update when it is [Some]. *)
Definition update_at (idx : nat) (f : Question -> Question) (qs : list Question)
    : list Question :=
  match qs !! idx with
  | Some q => <[idx := f q]> qs
  | None => qs
  end.

(** One slot of the [for _ in 0..cfg.num_questions] loop: the
    placeholder draw (short-circuited when word problems are off), then
    either the placeholder or a basic question for a random enabled
    operation.  [None] is a panic. *)
Definition gen_slot (cfg : QuizConfig) (ops : list BaseOp) (ai_count : nat)
    (ds0 : list draw) : option (string * Z * string * nat * list draw) :=
  let '(make_word, ds1) :=
    if include_words cfg
    then let '(r, ds1) := rand_int 0 3 ds0 in (Z.eqb r 0, ds1)
    else (false, ds0) in
  if make_word
  then Some (loading_prompt, 0, word_kind (difficulty cfg), S ai_count, ds1)
  else
    let '(idx, ds2) := rand_int 0 (Z.of_nat (length ops) - 1) ds1 in
    match vec_index ops idx with
    | None => None
    | Some op =>
        let '(p, a, k, ds3) := generate_basic_question cfg op ds2 in
        Some (p, a, k, ai_count, ds3)
    end.

Fixpoint gen_slots (cfg : QuizConfig) (ops : list BaseOp) (n : nat)
    (ai_count : nat) (ds : list draw)
    : option (list Question * nat * list draw) :=
  match n with
  | O => Some ([], ai_count, ds)
  | S n' =>
      match gen_slot cfg ops ai_count ds with
      | None => None
      | Some (p, a, k, ai', ds') =>
          match gen_slots cfg ops n' ai' ds' with
          | None => None
          | Some (rest, ai'', ds'') => Some (new_question p k a :: rest, ai'', ds'')
          end
      end
  end.

Definition make_placeholder (d : Difficulty) (q : Question) : Question :=
  mkQuestion loading_prompt (word_kind d) 0 (user_answer q) (is_correct q).

Definition generate_questions_with_ai_placeholders (cfg : QuizConfig)
    (ds : list draw) : option (list Question * list draw) :=
  let ops := enabled_ops_of cfg in
  match gen_slots cfg ops (num_questions cfg) 0 ds with
  | None => None
  | Some (qs, ai_count, ds') =>
      let qs' := if include_words cfg && Nat.eqb ai_count 0
                 then update_at 0 (make_placeholder (difficulty cfg)) qs
                 else qs in
      Some (qs', ds')
  end.

(** [str::contains] with a string pattern. *)
Fixpoint str_contains (needle hay : string) : bool :=
  String.prefix needle hay ||
  match hay with
  | EmptyString => false
  | String _ rest => str_contains needle rest
  end.

Definition is_word (q : Question) : bool := str_contains "Word Problem" (kind q).

(** ** [str::trim] and [str::parse::<i32>]

    Strings are UTF-8 byte strings.  [trim] removes, at both ends, the
    characters for which [char::is_whitespace] holds, recognised by their
    UTF-8 encodings. *)

Definition bytes_of (s : string) : list N := map N_of_ascii (list_ascii_of_string s).
Definition string_of_bytes (l : list N) : string := string_of_list_ascii (map ascii_of_N l).

(** U+0009..U+000D, U+0020, U+0085, U+00A0, U+1680, U+2000..U+200A,
    U+2028, U+2029, U+202F, U+205F, U+3000. *)
Definition whitespace_utf8 : list (list N) :=
  ([[9]; [10]; [11]; [12]; [13]; [32];
    [194; 133]; [194; 160]; [225; 154; 128]] ++
   map (fun k => [226; 128; 128 + k]) [0; 1; 2; 3; 4; 5; 6; 7; 8; 9; 10] ++
   [[226; 128; 168]; [226; 128; 169]; [226; 128; 175]; [226; 129; 159];
    [227; 128; 128]])%N%list.

Fixpoint bytes_prefix (p l : list N) : bool :=
  match p, l with
  | [], _ => true
  | x :: p', y :: l' => N.eqb x y && bytes_prefix p' l'
  | _ :: _, [] => false
  end.

(** Remove one leading whitespace character, if any. *)
Definition strip_ws (encs : list (list N)) (l : list N) : option (list N) :=
  match List.find (fun e => bytes_prefix e l) encs with
  | Some e => Some (skipn (length e) l)
  | None => None
  end.

Fixpoint trim_start_bytes (fuel : nat) (encs : list (list N)) (l : list N) : list N :=
  match fuel with
  | O => l
  | S f => match strip_ws encs l with
           | Some l' => trim_start_bytes f encs l'
           | None => l
           end
  end.

Definition trim (s : string) : string :=
  let l := bytes_of s in
  let l1 := trim_start_bytes (length l) whitespace_utf8 l in
  let l2 := rev (trim_start_bytes (length l1) (map (@rev N) whitespace_utf8) (rev l1)) in
  string_of_bytes l2.

Fixpoint digits_value (acc : Z) (l : list N) : option Z :=
  match l with
  | [] => Some acc
  | c :: l' =>
      if (48 <=? c)%N && (c <=? 57)%N
      then digits_value (acc * 10 + Z.of_N (c - 48)) l'
      else None
  end.

(** [i32::from_str]: an optional sign, then at least one ASCII digit and
    nothing else, the value inside [[-2^31, 2^31 - 1]]. *)
Definition parse_i32 (s : string) : option Z :=
  match bytes_of s with
  | [] => None
  | c :: rest =>
      let '(neg, digits) :=
        if N.eqb c 43 then (false, rest)
        else if N.eqb c 45 then (true, rest)
        else (false, c :: rest) in
      match digits with
      | [] => None
      | _ =>
          match digits_value 0 digits with
          | None => None
          | Some v =>
              let z := if neg then - v else v in
              if (- 2 ^ 31 <=? z) && (z <=? 2 ^ 31 - 1) then Some z else None
          end
      end
  end.

(** ** The application state and its handlers *)

Record AppState := mkState {
  config : QuizConfig;
  questions : list Question;
  show_results : bool;
  score : nat * nat
}.

Definition set_questions (st : AppState) (qs : list Question) : AppState :=
  mkState (config st) qs (show_results st) (score st).

Definition set_is_correct (b : option bool) (q : Question) : Question :=
  mkQuestion (prompt q) (kind q) (answer q) (user_answer q) b.

(** The body of the [for q in &mut qs] loop of [on_check_answers]. *)
Definition grade_question (q : Question) : bool :=
  match parse_i32 (trim (user_answer q)) with
  | Some val => Z.eqb val (answer q)
  | None => false
  end.

Fixpoint check_loop (qs : list Question) (correct : nat) : list Question * nat :=
  match qs with
  | [] => ([], correct)
  | q :: rest =>
      let ok := grade_question q in
      let correct' := if ok then S correct else correct in
      let '(rest', c) := check_loop rest correct' in
      (set_is_correct (Some ok) q :: rest', c)
  end.

Definition on_check_answers (st : AppState) : AppState :=
  let qs := questions st in
  let total := length qs in
  let '(qs', correct) := check_loop qs 0 in
  mkState (config st) qs' true (correct, total).

Definition on_reset_answers (st : AppState) : AppState :=
  let qs := map (fun q => mkQuestion (prompt q) (kind q) (answer q) "" None) (questions st) in
  mkState (config st) qs false (0%nat, length qs).

(** [on_answer_change] of the row at [index], with the input's new value. *)
Definition on_answer_change (index : nat) (value : string) (st : AppState) : AppState :=
  set_questions st
    (update_at index (fun q => mkQuestion (prompt q) (kind q) (answer q) value None)
       (questions st)).

(** [on_regen_ai idx]: after the fetch (or the fallback), the handler
    clones the question list it holds and sets it only when [idx] is in
    range.  [st] is the store as that handle sees it. *)
Definition on_regen_ai (idx : nat) (fetched : option (string * Z * string))
    (st : AppState) : Rand AppState := fun ds =>
  let '(p, a, k, ds') := resolve_word_problem (config st) fetched ds in
  let qs := questions st in
  match qs !! idx with
  | Some q =>
      (set_questions st (<[idx := mkQuestion p k a (user_answer q) (is_correct q)]> qs), ds')
  | None => (st, ds')
  end.

(** ** The configuration handlers *)

Definition default_config : QuizConfig :=
  mkConfig 10 Easy true true false false true.

(** [str::parse::<usize>] on the wasm32 target, where [usize] has 32
    bits: an optional [+] (no [-], the type is unsigned), then at least
    one ASCII digit and nothing else, the value at most [2^32 - 1]. *)
Definition parse_usize (s : string) : option Z :=
  match bytes_of s with
  | [] => None
  | c :: rest =>
      let digits := if N.eqb c 43 then rest else c :: rest in
      match digits with
      | [] => None
      | _ =>
          match digits_value 0 digits with
          | None => None
          | Some v => if v <=? 2 ^ 32 - 1 then Some v else None
          end
      end
  end.

(** [Ord::clamp(self, min, max)] *)
Definition clamp (v lo hi : Z) : Z :=
  if v <? lo then lo else if hi <? v then hi else v.

Definition set_num_questions (n : nat) (c : QuizConfig) : QuizConfig :=
  mkConfig n (difficulty c) (include_add c) (include_sub c) (include_mul c)
    (include_div c) (include_words c).

Definition set_difficulty (d : Difficulty) (c : QuizConfig) : QuizConfig :=
  mkConfig (num_questions c) d (include_add c) (include_sub c) (include_mul c)
    (include_div c) (include_words c).

(** [on_num_questions] with the input's text [value]. *)
Definition on_num_questions (value : string) (c : QuizConfig) : QuizConfig :=
  let val := match parse_usize value with Some v => v | None => 10 end in
  set_num_questions (Z.to_nat (clamp val 5 20)) c.

(** [on_difficulty_change] with the select's value. *)
Definition on_difficulty_change (value : string) (c : QuizConfig) : QuizConfig :=
  set_difficulty
    (if String.eqb value "moderate" then Moderate
     else if String.eqb value "advanced" then Advanced
     else Easy) c.

(** [toggle_checkbox(field, config)] with the box's new state [checked]. *)
Definition toggle_checkbox (field : string) (checked : bool) (c : QuizConfig)
    : QuizConfig :=
  let n := num_questions c in
  let d := difficulty c in
  if String.eqb field "add" then
    mkConfig n d checked (include_sub c) (include_mul c) (include_div c) (include_words c)
  else if String.eqb field "sub" then
    mkConfig n d (include_add c) checked (include_mul c) (include_div c) (include_words c)
  else if String.eqb field "mul" then
    mkConfig n d (include_add c) (include_sub c) checked (include_div c) (include_words c)
  else if String.eqb field "div" then
    mkConfig n d (include_add c) (include_sub c) (include_mul c) checked (include_words c)
  else if String.eqb field "words" then
    mkConfig n d (include_add c) (include_sub c) (include_mul c) (include_div c) checked
  else c.

(** ** [fetch_ai_word_problem]

    The network's answer is [resp]: [None] for a transport error, else
    [resp.ok()] and the decoded JSON body ([None] when it does not decode
    as [{ prompt, answer }]). *)
Definition fetch_ai_word_problem (cfg : QuizConfig)
    (resp : option (bool * option (string * Z))) : option (string * Z * string) :=
  match resp with
  | None => None
  | Some (ok, body) =>
      if negb ok then None
      else match body with
           | None => None
           | Some (p, a) => Some (p, a, word_kind (difficulty cfg))
           end
  end.

(** ** [on_generate] *)

(** [qs.iter().enumerate().filter(|(_, q)| q.kind.contains("Word Problem"))
    .map(|(i, _)| i)], counting from [i]. *)
Fixpoint ai_indexes_from (i : nat) (qs : list Question) : list nat :=
  match qs with
  | [] => []
  | q :: rest =>
      if is_word q then i :: ai_indexes_from (S i) rest
      else ai_indexes_from (S i) rest
  end.

Definition ai_indexes (qs : list Question) : list nat := ai_indexes_from 0 qs.

(** The sequential fill: one fetch per index, in order, the fallback on a
    failure, then the in-place update of the local vector when the index
    is in range.  [resps] are the network answers in call order; past its
    end the fetch fails. *)
Fixpoint fill_ai (cfg : QuizConfig) (idxs : list nat)
    (resps : list (option (bool * option (string * Z))))
    (qs : list Question) (ds : list draw) : list Question * list draw :=
  match idxs with
  | [] => (qs, ds)
  | idx :: rest =>
      let '(p, a, k, ds1) :=
        resolve_word_problem cfg (fetch_ai_word_problem cfg (hd None resps)) ds in
      let qs1 := update_at idx (fun q => mkQuestion p k a (user_answer q) (is_correct q)) qs in
      fill_ai cfg rest (tl resps) qs1 ds1
  end.

(** The store once the spawned task of [on_generate] has run to its end
    with no other handler in between: the published list is the task's
    local vector, the results are hidden and the score is [(0, total)].
    [None] is a panic of the task, which leaves the store unchanged. *)
Definition on_generate (st : AppState)
    (resps : list (option (bool * option (string * Z))))
    (ds : list draw) : option (AppState * list draw) :=
  let cfg := config st in
  match generate_questions_with_ai_placeholders cfg ds with
  | None => None
  | Some (qs, ds1) =>
      let total := length qs in
      let '(qs', ds2) := fill_ai cfg (ai_indexes qs) resps qs ds1 in
      Some (mkState cfg qs' false (0%nat, total), ds2)
  end.

(** ** Shapes of generated rows *)

Definition basic_kinds : list string :=
  ["Addition"; "Subtraction"; "Multiplication"; "Division"].

(** A row as the generator leaves it: a whole answer, the word-problem
    label or an operation label, no answer typed and no grade. *)
Definition fresh_question (d : Difficulty) (q : Question) : Prop :=
  0 <= answer q /\ (kind q = word_kind d \/ In (kind q) basic_kinds) /\
  user_answer q = "" /\ is_correct q = None.

(** * Proofs *)

(** ** The random source *)

Lemma rand_int_valid min max ds x ds' :
  Forall valid_draw ds -> rand_int min max ds = (x, ds') -> Forall valid_draw ds'.
Proof.
  intros Hv E. unfold rand_int, next_draw in E.
  destruct ds as [|d ds0]; injection E as _ <-; [constructor|].
  now inversion Hv.
Qed.

Lemma rand_int_bounds min max ds x ds' :
  Forall valid_draw ds -> min <= max -> rand_int min max ds = (x, ds') ->
  min <= x <= max.
Proof.
  intros Hv Hle E. unfold rand_int, next_draw in E.
  destruct ds as [|[p q] ds0]; injection E as <- _; simpl.
  - rewrite Z.quot_1_r. lia.
  - inversion Hv as [|? ? Hd _]; subst. unfold valid_draw in Hd; simpl in Hd.
    rewrite Z.quot_div_nonneg by nia.
    assert (0 <= p * (max - min + 1) / q) by (apply Z.div_pos; nia).
    assert (p * (max - min + 1) / q < max - min + 1)
      by (apply Z.div_lt_upper_bound; nia).
    lia.
Qed.

(** Both facts at once, for the proofs that follow the draws. *)
Lemma rand_int_spec min max ds x ds' :
  Forall valid_draw ds -> min <= max -> rand_int min max ds = (x, ds') ->
  min <= x <= max /\ Forall valid_draw ds'.
Proof.
  intros Hv Hle E. split; [eapply rand_int_bounds | eapply rand_int_valid]; eauto.
Qed.

Lemma add_range_ok d : 0 <= fst (add_range d) <= snd (add_range d).
Proof. destruct d; simpl; lia. Qed.

Lemma div_range_ok d : 1 <= fst (div_range d) <= snd (div_range d).
Proof. destruct d; simpl; lia. Qed.

Lemma mul_range_ok d : fst (mul_range d) <= snd (mul_range d).
Proof. destruct d; simpl; lia. Qed.

Lemma generate_basic_question_valid cfg op ds t ds' :
  Forall valid_draw ds -> generate_basic_question cfg op ds = (t, ds') ->
  Forall valid_draw ds'.
Proof.
  intros Hv E. unfold generate_basic_question in E.
  destruct op;
    [ (destruct (add_range (difficulty cfg)) as [lo hi])
    | (destruct (add_range (difficulty cfg)) as [lo hi])
    | (destruct (mul_range (difficulty cfg)) as [lo hi])
    | (destruct (div_range (difficulty cfg)) as [lo hi]) ];
    destruct (rand_int _ _ ds) as [x ds1] eqn:E1;
    destruct (rand_int _ _ ds1) as [y ds2] eqn:E2;
    injection E as _ <-;
    exact (rand_int_valid _ _ _ _ _ (rand_int_valid _ _ _ _ _ Hv E1) E2).
Qed.

Lemma generate_basic_question_kind cfg ds p a k ds' :
  generate_basic_question cfg Add ds = (p, a, k, ds') -> k = "Addition".
Proof.
  unfold generate_basic_question. destruct (add_range _) as [lo hi].
  destruct (rand_int lo hi ds) as [x ds1].
  destruct (rand_int lo hi ds1) as [y ds2].
  now intros [= _ _ <- _].
Qed.

(** Closes [Forall valid_draw l] for a literal list of draws. *)
Ltac solve_valid := repeat constructor; unfold valid_draw; simpl; lia.

(** ** Division questions *)

(** C3: for every difficulty, a division question has prompt
    "dividend ÷ divisor = ?", its answer times the divisor is exactly the
    dividend, and the divisor is at least 1. *)
Theorem div_question_exact (cfg : QuizConfig) (ds : list draw)
    (p : string) (ans : Z) (k : string) (ds' : list draw) :
  Forall valid_draw ds ->
  generate_basic_question cfg Div ds = (p, ans, k, ds') ->
  k = "Division" /\
  exists dividend divisor,
    p = fmt_int dividend ++ " ÷ " ++ fmt_int divisor ++ " = ?" /\
    ans * divisor = dividend /\ 1 <= divisor.
Proof.
  intros Hv E. unfold generate_basic_question in E.
  pose proof (div_range_ok (difficulty cfg)) as Hr.
  destruct (div_range (difficulty cfg)) as [lo hi]; simpl in Hr.
  destruct (rand_int 1 hi ds) as [divisor ds1] eqn:E1.
  destruct (rand_int lo hi ds1) as [quotient ds2] eqn:E2.
  injection E as <- <- <- _.
  destruct (rand_int_spec 1 hi ds _ _ Hv ltac:(lia) E1) as [Hd _].
  split; [reflexivity|].
  exists (divisor * quotient), divisor. repeat split; lia.
Qed.

Lemma div_question_exact_witness :
  let cfg := mkConfig 10 Moderate false false false true false in
  let ds := [(1, 2); (2, 3)] in
  Forall valid_draw ds /\
  exists p ans k ds',
    generate_basic_question cfg Div ds = (p, ans, k, ds') /\
    (k = "Division" /\
     exists dividend divisor,
       p = fmt_int dividend ++ " ÷ " ++ fmt_int divisor ++ " = ?" /\
       ans * divisor = dividend /\ 1 <= divisor).
Proof.
  intros cfg ds.
  assert (Hv : Forall valid_draw ds) by (subst ds; solve_valid).
  split; [exact Hv|].
  do 4 eexists. split; [reflexivity|].
  eapply (div_question_exact cfg ds); [exact Hv | reflexivity].
Defined.

(** ** Subtraction questions *)

(** C4: for every difficulty, a subtraction question draws [a] in the
    difficulty's range first, then [b] with [rand_int(0, a)]; hence
    [0 <= b <= a] and the answer [a - b] is not negative. *)
Theorem sub_question_nonneg (cfg : QuizConfig) (ds : list draw)
    (p : string) (ans : Z) (k : string) (ds' : list draw) :
  Forall valid_draw ds ->
  generate_basic_question cfg Sub ds = (p, ans, k, ds') ->
  k = "Subtraction" /\
  exists a b ds1,
    rand_int (fst (add_range (difficulty cfg))) (snd (add_range (difficulty cfg))) ds
      = (a, ds1) /\
    rand_int 0 a ds1 = (b, ds') /\
    0 <= b <= a /\ ans = a - b /\ 0 <= ans /\
    p = fmt_int a ++ " − " ++ fmt_int b ++ " = ?".
Proof.
  intros Hv E. unfold generate_basic_question in E.
  pose proof (add_range_ok (difficulty cfg)) as Hr.
  destruct (add_range (difficulty cfg)) as [lo hi]; simpl in Hr |- *.
  destruct (rand_int lo hi ds) as [a ds1] eqn:E1.
  destruct (rand_int 0 a ds1) as [b ds2] eqn:E2.
  injection E as <- <- <- <-.
  destruct (rand_int_spec lo hi ds _ _ Hv ltac:(lia) E1) as [Ha Hv1].
  destruct (rand_int_spec 0 a ds1 _ _ Hv1 ltac:(lia) E2) as [Hb _].
  split; [reflexivity|].
  exists a, b, ds1. repeat split; auto; lia.
Qed.

Lemma sub_question_nonneg_witness :
  let cfg := mkConfig 10 Advanced false true false false false in
  let ds := [(3, 4); (5, 7)] in
  Forall valid_draw ds /\
  exists p ans k ds',
    generate_basic_question cfg Sub ds = (p, ans, k, ds') /\
    (k = "Subtraction" /\
     exists a b ds1,
       rand_int (fst (add_range (difficulty cfg))) (snd (add_range (difficulty cfg))) ds
         = (a, ds1) /\
       rand_int 0 a ds1 = (b, ds') /\
       0 <= b <= a /\ ans = a - b /\ 0 <= ans /\
       p = fmt_int a ++ " − " ++ fmt_int b ++ " = ?").
Proof.
  intros cfg ds.
  assert (Hv : Forall valid_draw ds) by (subst ds; solve_valid).
  split; [exact Hv|].
  do 4 eexists. split; [reflexivity|].
  eapply (sub_question_nonneg cfg ds); [exact Hv | reflexivity].
Defined.

(** ** The local fallback word problem *)

(** C8: when the fetch fails, the fallback draws [a] in [3,15] and then
    [b] in [2,10], writes the sticker prompt with [a] and [b], answers
    [a + b] and carries the word-problem label of the difficulty. *)
Theorem fallback_word_problem_spec (cfg : QuizConfig) (ds : list draw)
    (p : string) (ans : Z) (k : string) (ds' : list draw) :
  Forall valid_draw ds ->
  resolve_word_problem cfg None ds = (p, ans, k, ds') ->
  exists a b ds1,
    rand_int 3 15 ds = (a, ds1) /\ rand_int 2 10 ds1 = (b, ds') /\
    3 <= a <= 15 /\ 2 <= b <= 10 /\
    p = sticker_prompt a b /\ ans = a + b /\ k = word_kind (difficulty cfg).
Proof.
  intros Hv E. unfold resolve_word_problem, generate_fallback_word_problem in E.
  destruct (rand_int 3 15 ds) as [a ds1] eqn:E1.
  destruct (rand_int 2 10 ds1) as [b ds2] eqn:E2.
  injection E as <- <- <- <-.
  destruct (rand_int_spec 3 15 ds _ _ Hv ltac:(lia) E1) as [Ha Hv1].
  destruct (rand_int_spec 2 10 ds1 _ _ Hv1 ltac:(lia) E2) as [Hb _].
  exists a, b, ds1. repeat split; auto; lia.
Qed.

Lemma fallback_word_problem_spec_witness :
  let cfg := mkConfig 10 Easy true true false false true in
  let ds := [(9, 10); (1, 4)] in
  Forall valid_draw ds /\
  exists p ans k ds',
    resolve_word_problem cfg None ds = (p, ans, k, ds') /\
    exists a b ds1,
      rand_int 3 15 ds = (a, ds1) /\ rand_int 2 10 ds1 = (b, ds') /\
      3 <= a <= 15 /\ 2 <= b <= 10 /\
      p = sticker_prompt a b /\ ans = a + b /\ k = word_kind (difficulty cfg).
Proof.
  intros cfg ds.
  assert (Hv : Forall valid_draw ds) by (subst ds; solve_valid).
  split; [exact Hv|].
  do 4 eexists. split; [reflexivity|].
  eapply (fallback_word_problem_spec cfg ds); [exact Hv | reflexivity].
Defined.

(** ** The scheduler *)

Lemma word_kind_is_word (d : Difficulty) :
  str_contains "Word Problem" (word_kind d) = true.
Proof. destruct d; reflexivity. Qed.

(** A slot either leaves the placeholder count alone or is a placeholder
    with the word-problem label. *)
Lemma gen_slot_ai cfg ops ai ds p a k ai1 ds1 :
  gen_slot cfg ops ai ds = Some (p, a, k, ai1, ds1) ->
  ai1 = ai \/ (ai1 = S ai /\ k = word_kind (difficulty cfg)).
Proof.
  unfold gen_slot. intros E.
  destruct (include_words cfg).
  - destruct (rand_int 0 3 ds) as [r dsr]. cbv beta iota in E.
    destruct (Z.eqb r 0).
    + injection E as _ _ <- <- _. now right.
    + destruct (rand_int 0 _ dsr) as [idx ds2].
      destruct (vec_index ops idx); [|discriminate].
      destruct (generate_basic_question cfg _ ds2) as [[[p' a'] k'] ds3].
      injection E as _ _ _ <- _. now left.
  - cbv beta iota in E.
    destruct (rand_int 0 _ ds) as [idx ds2].
    destruct (vec_index ops idx); [|discriminate].
    destruct (generate_basic_question cfg _ ds2) as [[[p' a'] k'] ds3].
    injection E as _ _ _ <- _. now left.
Qed.

Lemma gen_slots_word cfg ops n ai ds qs ai' ds' :
  gen_slots cfg ops n ai ds = Some (qs, ai', ds') ->
  length qs = n /\
  (ai' = ai \/ Exists (fun q => kind q = word_kind (difficulty cfg)) qs).
Proof.
  revert ai ds qs ai' ds'.
  induction n as [|n IH]; intros ai ds qs ai' ds' E; simpl in E.
  - injection E as <- <- _. auto.
  - destruct (gen_slot cfg ops ai ds) as [[[[[p a] k] ai1] ds1]|] eqn:Es;
      [|discriminate].
    destruct (gen_slots cfg ops n ai1 ds1) as [[[rest ai2] ds2]|] eqn:Er;
      [|discriminate].
    injection E as <- <- _.
    destruct (IH _ _ _ _ _ Er) as [Hlen Hrest].
    split; [simpl; lia|].
    destruct (gen_slot_ai _ _ _ _ _ _ _ _ _ Es) as [-> | [-> Hk]].
    + destruct Hrest as [-> | Hex]; [now left | right; now constructor 2].
    + right. constructor 1. exact Hk.
Qed.

(** C5: with word problems on and at least one question, the returned list
    holds a question whose kind contains "Word Problem". *)
Theorem words_min_coverage (cfg : QuizConfig) (ds : list draw)
    (qs : list Question) (ds' : list draw) :
  include_words cfg = true -> (1 <= num_questions cfg)%nat ->
  generate_questions_with_ai_placeholders cfg ds = Some (qs, ds') ->
  Exists (fun q => is_word q = true) qs.
Proof.
  intros Hw Hn E. unfold generate_questions_with_ai_placeholders in E.
  destruct (gen_slots cfg _ _ 0 ds) as [[[qs0 ai] ds0]|] eqn:Eg; [|discriminate].
  injection E as <- _.
  destruct (gen_slots_word _ _ _ _ _ _ _ _ Eg) as [Hlen Hex].
  rewrite Hw. simpl.
  destruct (Nat.eqb_spec ai 0) as [Hai | Hai].
  - destruct qs0 as [|q rest]; [simpl in Hlen; lia|].
    unfold update_at. simpl. constructor 1.
    exact (word_kind_is_word (difficulty cfg)).
  - destruct Hex as [Hai' | Hex]; [lia|].
    eapply Exists_impl; [exact Hex|].
    intros q Hk. unfold is_word. rewrite Hk. apply word_kind_is_word.
Qed.

Lemma words_min_coverage_witness :
  let cfg := mkConfig 5 Easy true false false false true in
  let ds := [(1, 2); (0, 1); (1, 3); (2, 3); (1, 2); (0, 1); (1, 3); (2, 3);
             (1, 2); (0, 1); (1, 3); (2, 3); (1, 2); (0, 1); (1, 3); (2, 3);
             (1, 2); (0, 1); (1, 3); (2, 3)] in
  include_words cfg = true /\ (1 <= num_questions cfg)%nat /\
  exists qs ds',
    generate_questions_with_ai_placeholders cfg ds = Some (qs, ds') /\
    Exists (fun q => is_word q = true) qs.
Proof.
  intros cfg ds.
  split; [reflexivity|]. split; [subst cfg; simpl; lia|].
  do 2 eexists. split; [vm_compute; reflexivity|].
  eapply (words_min_coverage cfg ds); [reflexivity | subst cfg; simpl; lia | ].
  vm_compute. reflexivity.
Defined.

Lemma enabled_ops_forced_add (cfg : QuizConfig) :
  include_add cfg = false -> include_sub cfg = false ->
  include_mul cfg = false -> include_div cfg = false ->
  include_words cfg = false ->
  enabled_ops_of cfg = [Add].
Proof.
  intros Ha Hs Hm Hd Hw. unfold enabled_ops_of. now rewrite Ha, Hs, Hm, Hd, Hw.
Qed.

(** With word problems off and the single operation [Add], every slot
    draws index 0 and builds an addition question. *)
Lemma gen_slots_add_only cfg n ai ds :
  include_words cfg = false -> Forall valid_draw ds ->
  exists qs ds',
    gen_slots cfg [Add] n ai ds = Some (qs, ai, ds') /\
    length qs = n /\ Forall (fun q => kind q = "Addition") qs.
Proof.
  intros Hw. revert ds. induction n as [|n IH]; intros ds Hv.
  - exists [], ds. simpl. auto.
  - simpl gen_slots. unfold gen_slot. rewrite Hw. cbv beta iota.
    destruct (rand_int 0 (Z.of_nat (length [Add]) - 1) ds) as [idx ds2] eqn:Ei.
    destruct (rand_int_spec 0 (Z.of_nat (length [Add]) - 1) ds _ _ Hv
                ltac:(simpl; lia) Ei) as [Hidx Hv2].
    simpl in Hidx. assert (idx = 0) as -> by lia.
    change (vec_index [Add] 0) with (Some Add). cbv beta iota.
    destruct (generate_basic_question cfg Add ds2) as [[[p a] k] ds3] eqn:Eb.
    pose proof (generate_basic_question_kind _ _ _ _ _ _ Eb) as ->.
    pose proof (generate_basic_question_valid _ _ _ _ _ Hv2 Eb) as Hv3.
    destruct (IH ds3 Hv3) as (qs & ds' & Er & Hlen & Hk).
    rewrite Er. exists (new_question p "Addition" a :: qs), ds'.
    split; [reflexivity|]. split; [simpl; lia|]. now constructor.
Qed.

(** C7: with no operation enabled and word problems off, generation
    succeeds and every question is an addition question. *)
Theorem empty_ops_addition_only (cfg : QuizConfig) (ds : list draw) :
  include_add cfg = false -> include_sub cfg = false ->
  include_mul cfg = false -> include_div cfg = false ->
  include_words cfg = false ->
  Forall valid_draw ds ->
  exists qs ds',
    generate_questions_with_ai_placeholders cfg ds = Some (qs, ds') /\
    length qs = num_questions cfg /\
    Forall (fun q => kind q = "Addition") qs.
Proof.
  intros Ha Hs Hm Hd Hw Hv.
  unfold generate_questions_with_ai_placeholders.
  rewrite (enabled_ops_forced_add cfg Ha Hs Hm Hd Hw).
  destruct (gen_slots_add_only cfg (num_questions cfg) 0 ds Hw Hv)
    as (qs & ds' & Eg & Hlen & Hk).
  rewrite Eg, Hw. simpl. exists qs, ds'. auto.
Qed.

Lemma empty_ops_addition_only_witness :
  let cfg := mkConfig 5 Moderate false false false false false in
  let ds := [(1, 2); (0, 1); (1, 3); (2, 3); (1, 2); (0, 1); (1, 3); (2, 3);
             (1, 2); (0, 1); (1, 3); (2, 3); (1, 2); (0, 1); (1, 3)] in
  include_add cfg = false /\ include_sub cfg = false /\
  include_mul cfg = false /\ include_div cfg = false /\
  include_words cfg = false /\ Forall valid_draw ds /\
  exists qs ds',
    generate_questions_with_ai_placeholders cfg ds = Some (qs, ds') /\
    length qs = num_questions cfg /\
    Forall (fun q => kind q = "Addition") qs.
Proof.
  intros cfg ds.
  assert (Hv : Forall valid_draw ds) by (subst ds; solve_valid).
  do 5 (split; [reflexivity|]). split; [exact Hv|].
  exact (empty_ops_addition_only cfg ds eq_refl eq_refl eq_refl eq_refl eq_refl Hv).
Defined.

(** ** Totality of generation *)

(** C1: with every operation unchecked and word problems on, a slot whose
    placeholder draw is not 0 picks [rand_int(0, -1) = 0] and indexes the
    empty operation vector: the generation panics. *)
Theorem no_ops_with_words_panics :
  generate_questions_with_ai_placeholders
    (mkConfig 5 Easy false false false false true) [(1, 2); (0, 1)] = None.
Proof. vm_compute. reflexivity. Qed.

(** ** Grading *)

Lemma lookup_map_list {A B} (f : A -> B) (l : list A) (i : nat) :
  map f l !! i = option_map f (l !! i).
Proof.
  revert i. induction l as [|x l IH]; intros [|i]; simpl; auto.
Qed.

Lemma check_loop_spec (qs : list Question) (c : nat) :
  check_loop qs c =
  (map (fun q => set_is_correct (Some (grade_question q)) q) qs,
   (c + length (List.filter grade_question qs))%nat).
Proof.
  revert c. induction qs as [|q qs IH]; intros c; simpl.
  - f_equal. lia.
  - rewrite IH. cbn [filter].
    destruct (grade_question q); simpl; f_equal; lia.
Qed.

Lemma grade_question_set_is_correct (b : option bool) (q : Question) :
  grade_question (set_is_correct b q) = grade_question q.
Proof. destruct q; reflexivity. Qed.

Lemma regrade_ignores_flags (qs : list Question) :
  map (fun q => set_is_correct (Some (grade_question q)) q)
      (map (set_is_correct None) qs) =
  map (fun q => set_is_correct (Some (grade_question q)) q) qs /\
  List.filter grade_question (map (set_is_correct None) qs) =
  map (set_is_correct None) (List.filter grade_question qs).
Proof.
  induction qs as [|q qs [IH1 IH2]]; [split; reflexivity|].
  simpl. rewrite grade_question_set_is_correct, IH1, IH2.
  split; [f_equal; destruct q; reflexivity|].
  destruct (grade_question q); reflexivity.
Qed.

(** C6: a grading pass sets every question's flag to the result of
    parsing its trimmed answer as an [i32] and comparing it with the
    stored answer (false when the parse fails), and the score is the
    number of questions graded true over the list length.  The pass reads
    neither the previous score nor the previous flags.  The examples of
    the specification: "7", " 7 ", "seven" and "" against the answer 7. *)
Theorem check_answers_spec (st : AppState) :
  questions (on_check_answers st) =
    map (fun q => set_is_correct (Some (grade_question q)) q) (questions st) /\
  score (on_check_answers st) =
    (length (List.filter grade_question (questions st)), length (questions st)) /\
  show_results (on_check_answers st) = true /\
  on_check_answers st =
    on_check_answers (mkState (config st) (map (set_is_correct None) (questions st))
                        false (0%nat, 0%nat)) /\
  grade_question (mkQuestion "3 + 4 = ?" "Addition" 7 "7" None) = true /\
  grade_question (mkQuestion "3 + 4 = ?" "Addition" 7 " 7 " None) = true /\
  grade_question (mkQuestion "3 + 4 = ?" "Addition" 7 "seven" None) = false /\
  grade_question (mkQuestion "3 + 4 = ?" "Addition" 7 "" None) = false.
Proof.
  unfold on_check_answers. rewrite !check_loop_spec. simpl.
  split; [reflexivity|]. split; [reflexivity|]. split; [reflexivity|].
  split.
  - destruct (regrade_ignores_flags (questions st)) as [-> ->].
    rewrite !length_map. reflexivity.
  - repeat split; vm_compute; reflexivity.
Qed.

(** ** Grading a pending placeholder *)

(** C2 (as stated, refuted): a pending placeholder (sentinel prompt,
    answer 0, word-problem label) answered "0" is graded true. *)
Lemma pending_placeholder_zero_graded_true :
  ~ (forall (d : Difficulty) (ua : string) (st : AppState),
       questions st = [mkQuestion loading_prompt (word_kind d) 0 ua None] ->
       questions (on_check_answers st) =
         [mkQuestion loading_prompt (word_kind d) 0 ua (Some false)]).
Proof.
  intros H.
  specialize (H Easy "0"
    (mkState (mkConfig 5 Easy true true false false true)
       [mkQuestion loading_prompt (word_kind Easy) 0 "0" None] false (0%nat, 1%nat))
    eq_refl).
  vm_compute in H. discriminate H.
Qed.

(** C2 (amended): grading has no case for pending placeholders; one is
    graded against its stored answer 0, so it is marked correct exactly
    when its trimmed answer parses as the [i32] value 0. *)
Theorem pending_placeholder_grade (st : AppState) (i : nat) (d : Difficulty)
    (ua : string) (c : option bool) :
  questions st !! i = Some (mkQuestion loading_prompt (word_kind d) 0 ua c) ->
  questions (on_check_answers st) !! i =
    Some (mkQuestion loading_prompt (word_kind d) 0 ua
            (Some (match parse_i32 (trim ua) with Some 0 => true | _ => false end))).
Proof.
  intros Hi. destruct (check_answers_spec st) as [-> _].
  rewrite lookup_map_list, Hi. simpl.
  unfold grade_question, set_is_correct. simpl.
  destruct (parse_i32 (trim ua)) as [[|p|p]|]; reflexivity.
Qed.

Lemma pending_placeholder_grade_witness :
  let st := mkState (mkConfig 5 Moderate true false false false true)
              [mkQuestion "7 + 1 = ?" "Addition" 8 "8" None;
               mkQuestion loading_prompt (word_kind Moderate) 0 " 0 " None]
              false (0%nat, 2%nat) in
  questions st !! 1%nat = Some (mkQuestion loading_prompt (word_kind Moderate) 0 " 0 " None) /\
  questions (on_check_answers st) !! 1%nat =
    Some (mkQuestion loading_prompt (word_kind Moderate) 0 " 0 "
            (Some (match parse_i32 (trim " 0 ") with Some 0 => true | _ => false end))).
Proof.
  intros st. split; [reflexivity|].
  exact (pending_placeholder_grade st 1 Moderate " 0 " None eq_refl).
Defined.

(** ** Editing one answer *)

(** C9: editing the answer of row [index] replaces that row's answer and
    clears its flag; every other row, the configuration, the results
    switch and the score are left as they were. *)
Theorem answer_change_frame (index : nat) (value : string) (st : AppState) :
  config (on_answer_change index value st) = config st /\
  score (on_answer_change index value st) = score st /\
  show_results (on_answer_change index value st) = show_results st /\
  length (questions (on_answer_change index value st)) = length (questions st) /\
  (forall j, j <> index ->
     questions (on_answer_change index value st) !! j = questions st !! j) /\
  (forall q, questions st !! index = Some q ->
     questions (on_answer_change index value st) !! index =
       Some (mkQuestion (prompt q) (kind q) (answer q) value None)).
Proof.
  unfold on_answer_change, set_questions, update_at. simpl.
  destruct (questions st !! index) as [q0|] eqn:Eq.
  - pose proof (lookup_lt_Some _ _ _ Eq) as Hlt.
    repeat split.
    + apply length_insert.
    + intros j Hj. apply list_lookup_insert_ne. congruence.
    + intros q Hq. injection Hq as <-.
      apply list_lookup_insert_eq. exact Hlt.
  - repeat split. intros q Hq. congruence.
Qed.

Lemma answer_change_frame_witness :
  let st := mkState (mkConfig 5 Easy true false false false false)
              [mkQuestion "1 + 2 = ?" "Addition" 3 "3" (Some true);
               mkQuestion "2 + 2 = ?" "Addition" 4 "5" (Some false)]
              true (1%nat, 2%nat) in
  config (on_answer_change 1 "4" st) = config st /\
  score (on_answer_change 1 "4" st) = score st /\
  show_results (on_answer_change 1 "4" st) = show_results st /\
  length (questions (on_answer_change 1 "4" st)) = length (questions st) /\
  (forall j, j <> 1%nat ->
     questions (on_answer_change 1 "4" st) !! j = questions st !! j) /\
  (forall q, questions st !! 1%nat = Some q ->
     questions (on_answer_change 1 "4" st) !! 1%nat =
       Some (mkQuestion (prompt q) (kind q) (answer q) "4" None)).
Proof.
  intros st. exact (answer_change_frame 1 "4" st).
Defined.

(** ** Regenerating one word problem *)

(** C10: the regenerate handler changes at most the row [idx] of the list
    it reads, and there only the prompt, the answer and the kind; when
    [idx] is out of range it publishes nothing and the store is left as
    it was.  The handler is total: no path of it panics. *)
Theorem regen_frame (idx : nat) (fetched : option (string * Z * string))
    (st : AppState) (ds : list draw) :
  config (fst (on_regen_ai idx fetched st ds)) = config st /\
  score (fst (on_regen_ai idx fetched st ds)) = score st /\
  show_results (fst (on_regen_ai idx fetched st ds)) = show_results st /\
  length (questions (fst (on_regen_ai idx fetched st ds))) = length (questions st) /\
  (forall j, j <> idx ->
     questions (fst (on_regen_ai idx fetched st ds)) !! j = questions st !! j) /\
  (forall q, questions st !! idx = Some q ->
     exists q', questions (fst (on_regen_ai idx fetched st ds)) !! idx = Some q' /\
                user_answer q' = user_answer q /\ is_correct q' = is_correct q) /\
  ((length (questions st) <= idx)%nat -> fst (on_regen_ai idx fetched st ds) = st).
Proof.
  unfold on_regen_ai.
  destruct (resolve_word_problem (config st) fetched ds) as [[[p a] k] ds'].
  destruct (questions st !! idx) as [q0|] eqn:Eq; simpl.
  - pose proof (lookup_lt_Some _ _ _ Eq) as Hlt.
    repeat split.
    + apply length_insert.
    + intros j Hj. apply list_lookup_insert_ne. congruence.
    + intros q Hq. injection Hq as <-.
      eexists. split; [apply list_lookup_insert_eq; exact Hlt|]. auto.
    + intros Hge. lia.
  - repeat split. intros q Hq. discriminate Hq.
Qed.

Lemma regen_frame_witness :
  let st := mkState (mkConfig 5 Easy true false false false true)
              [mkQuestion "1 + 2 = ?" "Addition" 3 "" None;
               mkQuestion loading_prompt (word_kind Easy) 0 "" None]
              false (0%nat, 2%nat) in
  let ds := [(1, 2); (1, 2)] in
  (length (questions st) <= 7)%nat /\
  fst (on_regen_ai 7 None st ds) = st /\
  (forall j, j <> 1%nat ->
     questions (fst (on_regen_ai 1 None st ds)) !! j = questions st !! j).
Proof.
  intros st ds. split; [simpl; lia|]. split.
  - destruct (regen_frame 7 None st ds) as (_ & _ & _ & _ & _ & _ & H).
    apply H. simpl. lia.
  - destruct (regen_frame 1 None st ds) as (_ & _ & _ & _ & H & _).
    exact H.
Defined.

(** ** Decimal text of integers *)

Fixpoint uint_bytes (u : Decimal.uint) : list N :=
  match u with
  | Decimal.Nil => []
  | Decimal.D0 u => 48%N :: uint_bytes u
  | Decimal.D1 u => 49%N :: uint_bytes u
  | Decimal.D2 u => 50%N :: uint_bytes u
  | Decimal.D3 u => 51%N :: uint_bytes u
  | Decimal.D4 u => 52%N :: uint_bytes u
  | Decimal.D5 u => 53%N :: uint_bytes u
  | Decimal.D6 u => 54%N :: uint_bytes u
  | Decimal.D7 u => 55%N :: uint_bytes u
  | Decimal.D8 u => 56%N :: uint_bytes u
  | Decimal.D9 u => 57%N :: uint_bytes u
  end.

Lemma bytes_of_string_of_uint (u : Decimal.uint) :
  bytes_of (NilEmpty.string_of_uint u) = uint_bytes u.
Proof.
  induction u; simpl; try reflexivity;
    unfold bytes_of in *; simpl; f_equal; exact IHu.
Qed.

Lemma uint_bytes_digits (u : Decimal.uint) :
  Forall (fun c => (48 <= c <= 57)%N) (uint_bytes u).
Proof. induction u; simpl; constructor; auto; lia. Qed.

Lemma uint_bytes_nonnil (u : Decimal.uint) :
  u <> Decimal.Nil -> exists c rest, uint_bytes u = c :: rest.
Proof. destruct u; simpl; [congruence| eauto ..]. Qed.

Lemma of_uint_acc_Z (u : Decimal.uint) (p : positive) :
  Z.of_N (Npos (Pos.of_uint_acc u p)) =
  Z.of_N (Pos.of_uint u) + Zpos p * 10 ^ Z.of_N (DecimalPos.Unsigned.usize u).
Proof.
  rewrite DecimalPos.Unsigned.of_uint_acc_rev, DecimalPos.Unsigned.of_uint_alt.
  rewrite N2Z.inj_add, N2Z.inj_mul, N2Z.inj_pow. reflexivity.
Qed.

Lemma digits_value_uint (acc : Z) (u : Decimal.uint) :
  digits_value acc (uint_bytes u) =
  Some (acc * 10 ^ Z.of_N (DecimalPos.Unsigned.usize u) + Z.of_N (Pos.of_uint u)).
Proof.
  revert acc. induction u as [|u IH|u IH|u IH|u IH|u IH|u IH|u IH|u IH|u IH|u IH];
    intros acc; simpl uint_bytes; [simpl; f_equal; lia|..];
    cbn [digits_value]; rewrite IH; simpl DecimalPos.Unsigned.usize;
    rewrite N2Z.inj_succ, Z.pow_succ_r by lia; simpl Pos.of_uint;
    rewrite ?of_uint_acc_Z; f_equal; simpl N.sub; simpl Z.of_N; ring.
Qed.

(** The text of a positive number is its digits, and they read back as it. *)
Lemma fmt_pos_digits (p : positive) :
  exists c rest,
    bytes_of (NilEmpty.string_of_uint (Pos.to_uint p)) = c :: rest /\
    Forall (fun c => (48 <= c <= 57)%N) (c :: rest) /\
    digits_value 0 (c :: rest) = Some (Zpos p).
Proof.
  rewrite bytes_of_string_of_uint.
  destruct (uint_bytes_nonnil (Pos.to_uint p)
              (DecimalPos.Unsigned.to_uint_nonnil p)) as (c & rest & E).
  exists c, rest. rewrite <- E. split; [reflexivity|]. split; [apply uint_bytes_digits|].
  rewrite digits_value_uint, DecimalPos.Unsigned.of_to. reflexivity.
Qed.

Lemma string_of_bytes_of (s : string) : string_of_bytes (bytes_of s) = s.
Proof.
  unfold string_of_bytes, bytes_of. rewrite map_map.
  erewrite map_ext by apply ascii_N_embedding.
  rewrite map_id. apply string_of_list_ascii_of_string.
Qed.

(** No whitespace encoding starts with a byte of ['-'] to ['9']... *)
Lemma strip_ws_none (encs : list (list N)) (c : N) (l : list N) :
  (forall e, In e encs -> exists x e', e = x :: e' /\ x <> c) ->
  strip_ws encs (c :: l) = None.
Proof.
  intros H. unfold strip_ws.
  replace (List.find (fun e => bytes_prefix e (c :: l)) encs) with (@None (list N));
    [reflexivity|].
  induction encs as [|e encs IH]; [reflexivity|]. simpl.
  destruct (H e (or_introl eq_refl)) as (x & e' & -> & Hx). simpl.
  rewrite (proj2 (N.eqb_neq x c) Hx). simpl.
  apply IH. intros e0 He0. apply H. now right.
Qed.

Lemma ws_first_bytes (c : N) :
  (45 <= c <= 57)%N ->
  forall e, In e whitespace_utf8 -> exists x e', e = x :: e' /\ x <> c.
Proof.
  intros Hc e He. simpl in He.
  repeat (destruct He as [<- | He]; [do 2 eexists; split; [reflexivity | lia] |]).
  destruct He.
Qed.

(** ... and none ends with one. *)
Lemma ws_last_bytes (c : N) :
  (45 <= c <= 57)%N ->
  forall e, In e (map (@rev N) whitespace_utf8) -> exists x e', e = x :: e' /\ x <> c.
Proof.
  intros Hc e He. simpl in He.
  repeat (destruct He as [<- | He]; [do 2 eexists; split; [reflexivity | lia] |]).
  destruct He.
Qed.

(** [trim] leaves alone a text made of the bytes ['-'] to ['9'] only. *)
Lemma trim_sign_digits (s : string) :
  bytes_of s <> [] -> Forall (fun c => (45 <= c <= 57)%N) (bytes_of s) ->
  trim s = s.
Proof.
  intros Hne Hall. unfold trim.
  destruct (bytes_of s) as [|c l] eqn:Eb; [congruence|].
  inversion Hall as [|? ? Hc _]; subst.
  simpl length. cbn [trim_start_bytes].
  rewrite strip_ws_none by (apply ws_first_bytes; exact Hc).
  destruct (rev (c :: l)) as [|c' r] eqn:Er.
  { apply (f_equal (@length N)) in Er. rewrite length_rev in Er. discriminate. }
  assert (Hc' : (45 <= c' <= 57)%N).
  { apply Forall_rev in Hall. rewrite Er in Hall. now inversion Hall. }
  simpl length. cbn [trim_start_bytes].
  rewrite strip_ws_none by (apply ws_last_bytes; exact Hc').
  rewrite <- Er, rev_involutive, <- Eb. apply string_of_bytes_of.
Qed.

(** The decimal text of every [i32] parses back to it. *)
Lemma parse_i32_fmt_int (z : Z) :
  - 2 ^ 31 <= z <= 2 ^ 31 - 1 -> parse_i32 (fmt_int z) = Some z.
Proof.
  intros Hz. unfold parse_i32, fmt_int.
  destruct z as [|p|p]; [reflexivity| |].
  - cbn [Z.to_int NilEmpty.string_of_int].
    destruct (fmt_pos_digits p) as (c & rest & Eb & Hd & Hv). rewrite Eb.
    inversion Hd as [|? ? Hc _]; subst.
    rewrite (proj2 (N.eqb_neq c 43)) by lia.
    rewrite (proj2 (N.eqb_neq c 45)) by lia.
    rewrite Hv. simpl in Hz.
    replace ((- 2 ^ 31 <=? Zpos p) && (Zpos p <=? 2 ^ 31 - 1)) with true
      by (symmetry; apply andb_true_intro; split; apply Z.leb_le; lia).
    reflexivity.
  - cbn [Z.to_int NilEmpty.string_of_int].
    destruct (fmt_pos_digits p) as (c & rest & Eb & Hd & Hv).
    unfold bytes_of in Eb |- *. simpl list_ascii_of_string. cbn [map].
    rewrite Eb. change (N_of_ascii "-") with 45%N. simpl N.eqb. cbn iota beta.
    rewrite Hv.
    replace ((- 2 ^ 31 <=? - Zpos p) && (- Zpos p <=? 2 ^ 31 - 1)) with true
      by (symmetry; apply andb_true_intro; split; apply Z.leb_le; lia).
    reflexivity.
Qed.

Lemma fmt_int_sign_digits (z : Z) :
  bytes_of (fmt_int z) <> [] /\
  Forall (fun c => (45 <= c <= 57)%N) (bytes_of (fmt_int z)).
Proof.
  unfold fmt_int. destruct z as [|p|p].
  - split; [discriminate|]. change (bytes_of (NilEmpty.string_of_int (Z.to_int 0))) with [48%N].
    constructor; [lia | constructor].
  - cbn [Z.to_int NilEmpty.string_of_int].
    destruct (fmt_pos_digits p) as (c & rest & Eb & Hd & _). rewrite Eb.
    split; [discriminate|]. eapply Forall_impl; [exact Hd|]. intros x Hx; simpl in Hx; lia.
  - cbn [Z.to_int NilEmpty.string_of_int].
    destruct (fmt_pos_digits p) as (c & rest & Eb & Hd & _).
    unfold bytes_of in Eb |- *. simpl list_ascii_of_string. cbn [map].
    rewrite Eb. split; [discriminate|]. constructor; [simpl; lia|].
    eapply Forall_impl; [exact Hd|]. intros x Hx; simpl in Hx; lia.
Qed.

(** ** Further properties of the generator *)

(** Addition: both operands in the difficulty's range, answer their sum. *)
Theorem add_question_spec (cfg : QuizConfig) (ds : list draw)
    (p : string) (ans : Z) (k : string) (ds' : list draw) :
  Forall valid_draw ds ->
  generate_basic_question cfg Add ds = (p, ans, k, ds') ->
  k = "Addition" /\
  exists a b,
    fst (add_range (difficulty cfg)) <= a <= snd (add_range (difficulty cfg)) /\
    fst (add_range (difficulty cfg)) <= b <= snd (add_range (difficulty cfg)) /\
    ans = a + b /\ p = fmt_int a ++ " + " ++ fmt_int b ++ " = ?".
Proof.
  intros Hv E. unfold generate_basic_question in E.
  pose proof (add_range_ok (difficulty cfg)) as Hr.
  destruct (add_range (difficulty cfg)) as [lo hi]; simpl in Hr |- *.
  destruct (rand_int lo hi ds) as [a ds1] eqn:E1.
  destruct (rand_int lo hi ds1) as [b ds2] eqn:E2.
  injection E as <- <- <- _.
  destruct (rand_int_spec lo hi ds _ _ Hv ltac:(lia) E1) as [Ha Hv1].
  destruct (rand_int_spec lo hi ds1 _ _ Hv1 ltac:(lia) E2) as [Hb _].
  split; [reflexivity|]. exists a, b. auto.
Qed.

Lemma add_question_spec_witness :
  let cfg := mkConfig 10 Advanced true false false false false in
  let ds := [(1, 2); (5, 7)] in
  Forall valid_draw ds /\
  exists p ans k ds',
    generate_basic_question cfg Add ds = (p, ans, k, ds') /\
    (k = "Addition" /\
     exists a b,
       fst (add_range (difficulty cfg)) <= a <= snd (add_range (difficulty cfg)) /\
       fst (add_range (difficulty cfg)) <= b <= snd (add_range (difficulty cfg)) /\
       ans = a + b /\ p = fmt_int a ++ " + " ++ fmt_int b ++ " = ?").
Proof.
  intros cfg ds.
  assert (Hv : Forall valid_draw ds) by (subst ds; solve_valid).
  split; [exact Hv|].
  do 4 eexists. split; [reflexivity|].
  eapply (add_question_spec cfg ds); [exact Hv | reflexivity].
Defined.

(** Multiplication: both factors in the difficulty's range, answer their
    product. *)
Theorem mul_question_spec (cfg : QuizConfig) (ds : list draw)
    (p : string) (ans : Z) (k : string) (ds' : list draw) :
  Forall valid_draw ds ->
  generate_basic_question cfg Mul ds = (p, ans, k, ds') ->
  k = "Multiplication" /\
  exists a b,
    fst (mul_range (difficulty cfg)) <= a <= snd (mul_range (difficulty cfg)) /\
    fst (mul_range (difficulty cfg)) <= b <= snd (mul_range (difficulty cfg)) /\
    ans = a * b /\ p = fmt_int a ++ " × " ++ fmt_int b ++ " = ?".
Proof.
  intros Hv E. unfold generate_basic_question in E.
  pose proof (mul_range_ok (difficulty cfg)) as Hr.
  destruct (mul_range (difficulty cfg)) as [lo hi]; simpl in Hr |- *.
  destruct (rand_int lo hi ds) as [a ds1] eqn:E1.
  destruct (rand_int lo hi ds1) as [b ds2] eqn:E2.
  injection E as <- <- <- _.
  destruct (rand_int_spec lo hi ds _ _ Hv ltac:(lia) E1) as [Ha Hv1].
  destruct (rand_int_spec lo hi ds1 _ _ Hv1 ltac:(lia) E2) as [Hb _].
  split; [reflexivity|]. exists a, b. auto.
Qed.

Lemma mul_question_spec_witness :
  let cfg := mkConfig 10 Moderate false false true false false in
  let ds := [(1, 2); (5, 7)] in
  Forall valid_draw ds /\
  exists p ans k ds',
    generate_basic_question cfg Mul ds = (p, ans, k, ds') /\
    (k = "Multiplication" /\
     exists a b,
       fst (mul_range (difficulty cfg)) <= a <= snd (mul_range (difficulty cfg)) /\
       fst (mul_range (difficulty cfg)) <= b <= snd (mul_range (difficulty cfg)) /\
       ans = a * b /\ p = fmt_int a ++ " × " ++ fmt_int b ++ " = ?").
Proof.
  intros cfg ds.
  assert (Hv : Forall valid_draw ds) by (subst ds; solve_valid).
  split; [exact Hv|].
  do 4 eexists. split; [reflexivity|].
  eapply (mul_question_spec cfg ds); [exact Hv | reflexivity].
Defined.

(** Every basic question has a whole, non-negative answer and one of the
    four operation labels. *)
Lemma generate_basic_question_shape cfg op ds p a k ds' :
  Forall valid_draw ds -> generate_basic_question cfg op ds = (p, a, k, ds') ->
  0 <= a /\ In k basic_kinds.
Proof.
  intros Hv E. unfold generate_basic_question in E. destruct op.
  - pose proof (add_range_ok (difficulty cfg)) as Hr.
    destruct (add_range (difficulty cfg)) as [lo hi]; simpl in Hr.
    destruct (rand_int lo hi ds) as [x ds1] eqn:E1.
    destruct (rand_int lo hi ds1) as [y ds2] eqn:E2.
    injection E as _ <- <- _.
    destruct (rand_int_spec lo hi ds _ _ Hv ltac:(lia) E1) as [Hx Hv1].
    destruct (rand_int_spec lo hi ds1 _ _ Hv1 ltac:(lia) E2) as [Hy _].
    split; [lia | simpl; auto].
  - pose proof (add_range_ok (difficulty cfg)) as Hr.
    destruct (add_range (difficulty cfg)) as [lo hi]; simpl in Hr.
    destruct (rand_int lo hi ds) as [x ds1] eqn:E1.
    destruct (rand_int 0 x ds1) as [y ds2] eqn:E2.
    injection E as _ <- <- _.
    destruct (rand_int_spec lo hi ds _ _ Hv ltac:(lia) E1) as [Hx Hv1].
    destruct (rand_int_spec 0 x ds1 _ _ Hv1 ltac:(lia) E2) as [Hy _].
    split; [lia | simpl; auto].
  - pose proof (mul_range_ok (difficulty cfg)) as Hr.
    assert (0 <= fst (mul_range (difficulty cfg))) by (destruct (difficulty cfg); simpl; lia).
    destruct (mul_range (difficulty cfg)) as [lo hi]; simpl in *.
    destruct (rand_int lo hi ds) as [x ds1] eqn:E1.
    destruct (rand_int lo hi ds1) as [y ds2] eqn:E2.
    injection E as _ <- <- _.
    destruct (rand_int_spec lo hi ds _ _ Hv ltac:(lia) E1) as [Hx Hv1].
    destruct (rand_int_spec lo hi ds1 _ _ Hv1 ltac:(lia) E2) as [Hy _].
    split; [nia | simpl; auto].
  - pose proof (div_range_ok (difficulty cfg)) as Hr.
    destruct (div_range (difficulty cfg)) as [lo hi]; simpl in Hr.
    destruct (rand_int 1 hi ds) as [x ds1] eqn:E1.
    destruct (rand_int lo hi ds1) as [y ds2] eqn:E2.
    injection E as _ <- <- _.
    destruct (rand_int_spec lo hi ds1 _ _
                (rand_int_valid _ _ _ _ _ Hv E1) ltac:(lia) E2) as [Hy _].
    split; [lia | simpl; auto 6].
Qed.

Lemma length_update_at idx f (qs : list Question) :
  length (update_at idx f qs) = length qs.
Proof. unfold update_at. destruct (qs !! idx); [apply length_insert | reflexivity]. Qed.



Lemma gen_slot_shape cfg ops ai ds p a k ai1 ds1 :
  Forall valid_draw ds ->
  gen_slot cfg ops ai ds = Some (p, a, k, ai1, ds1) ->
  0 <= a /\ (k = word_kind (difficulty cfg) \/ In k basic_kinds) /\
  Forall valid_draw ds1.
Proof.
  intros Hv E. unfold gen_slot in E.
  assert (Hv0 : exists mw dsm, (if include_words cfg
       then let '(r, ds1) := rand_int 0 3 ds in (Z.eqb r 0, ds1)
       else (false, ds)) = (mw, dsm) /\ Forall valid_draw dsm).
  { destruct (include_words cfg).
    - destruct (rand_int 0 3 ds) as [r dsr] eqn:Er.
      exists (Z.eqb r 0), dsr. split; [reflexivity|].
      eapply rand_int_valid; eauto.
    - exists false, ds. auto. }
  destruct Hv0 as (mw & dsm & Em & Hvm). rewrite Em in E.
  destruct mw.
  - injection E as _ <- <- _ <-. split; [lia|]. auto.
  - destruct (rand_int 0 _ dsm) as [idx ds2] eqn:Ei.
    destruct (vec_index ops idx) as [op|]; [|discriminate].
    destruct (generate_basic_question cfg op ds2) as [[[p' a'] k'] ds3] eqn:Eb.
    injection E as _ <- <- _ <-.
    pose proof (rand_int_valid _ _ _ _ _ Hvm Ei) as Hv2.
    destruct (generate_basic_question_shape _ _ _ _ _ _ _ Hv2 Eb) as [Ha Hk].
    split; [exact Ha|]. split; [now right|].
    eapply generate_basic_question_valid; eauto.
Qed.

Lemma gen_slots_shape cfg ops n ai ds qs ai' ds' :
  Forall valid_draw ds ->
  gen_slots cfg ops n ai ds = Some (qs, ai', ds') ->
  Forall (fresh_question (difficulty cfg)) qs /\ Forall valid_draw ds'.
Proof.
  revert ai ds qs ai' ds'.
  induction n as [|n IH]; intros ai ds qs ai' ds' Hv E; simpl in E.
  - injection E as <- _ <-. auto.
  - destruct (gen_slot cfg ops ai ds) as [[[[[p a] k] ai1] ds1]|] eqn:Es;
      [|discriminate].
    destruct (gen_slots cfg ops n ai1 ds1) as [[[rest ai2] ds2]|] eqn:Er;
      [|discriminate].
    injection E as <- _ <-.
    destruct (gen_slot_shape _ _ _ _ _ _ _ _ _ Hv Es) as (Ha & Hk & Hv1).
    destruct (IH _ _ _ _ _ Hv1 Er) as [Hall Hv2].
    split; [|exact Hv2]. constructor; [|exact Hall].
    unfold fresh_question, new_question; simpl. auto.
Qed.

Lemma gen_slot_total cfg ops ai ds :
  ops <> [] -> Forall valid_draw ds ->
  exists r, gen_slot cfg ops ai ds = Some r.
Proof.
  intros Hops Hv. unfold gen_slot.
  assert (Hv0 : exists mw dsm, (if include_words cfg
       then let '(r, ds1) := rand_int 0 3 ds in (Z.eqb r 0, ds1)
       else (false, ds)) = (mw, dsm) /\ Forall valid_draw dsm).
  { destruct (include_words cfg).
    - destruct (rand_int 0 3 ds) as [r dsr] eqn:Er.
      exists (Z.eqb r 0), dsr. split; [reflexivity|].
      eapply rand_int_valid; eauto.
    - exists false, ds. auto. }
  destruct Hv0 as (mw & dsm & Em & Hvm). rewrite Em.
  destruct mw; [eauto|].
  assert (Hlen : (1 <= length ops)%nat) by (destruct ops; [congruence | simpl; lia]).
  destruct (rand_int 0 (Z.of_nat (length ops) - 1) dsm) as [idx ds2] eqn:Ei.
  destruct (rand_int_spec 0 (Z.of_nat (length ops) - 1) dsm _ _ Hvm ltac:(lia) Ei)
    as [Hidx _].
  unfold vec_index.
  destruct (nth_error ops (Z.to_nat idx)) as [op|] eqn:En.
  - replace (idx <? 0) with false by (symmetry; apply Z.ltb_ge; lia).
    destruct (generate_basic_question cfg op ds2) as [[[p a] k] ds3]. eauto.
  - apply nth_error_None in En. lia.
Qed.

Lemma gen_slots_total cfg ops n ai ds :
  ops <> [] -> Forall valid_draw ds ->
  exists qs ai' ds', gen_slots cfg ops n ai ds = Some (qs, ai', ds') /\
                     length qs = n.
Proof.
  intros Hops. revert ai ds. induction n as [|n IH]; intros ai ds Hv; simpl.
  - eauto.
  - destruct (gen_slot_total cfg ops ai ds Hops Hv) as [[[[[p a] k] ai1] ds1] Es].
    rewrite Es.
    destruct (gen_slot_shape _ _ _ _ _ _ _ _ _ Hv Es) as (_ & _ & Hv1).
    destruct (IH ai1 ds1 Hv1) as (qs & ai' & ds' & Er & Hlen).
    rewrite Er. do 3 eexists. split; [reflexivity|]. simpl; lia.
Qed.

Lemma enabled_ops_nonempty (cfg : QuizConfig) :
  (include_add cfg || include_sub cfg || include_mul cfg || include_div cfg ||
   negb (include_words cfg)) = true ->
  enabled_ops_of cfg <> [].
Proof.
  unfold enabled_ops_of.
  destruct (include_add cfg), (include_sub cfg), (include_mul cfg),
    (include_div cfg), (include_words cfg); simpl; congruence.
Qed.

Lemma force_placeholder_fresh d (qs : list Question) :
  Forall (fresh_question d) qs ->
  Forall (fresh_question d) (update_at 0 (make_placeholder d) qs).
Proof.
  intros H. destruct qs as [|q rest]; [constructor|].
  inversion H as [|? ? Hq Hrest]; subst.
  unfold update_at. simpl. constructor; [|exact Hrest].
  destruct Hq as (_ & _ & Hu & Hc).
  unfold fresh_question, make_placeholder. simpl.
  split; [lia|]. split; [now left|]. auto.
Qed.

(** Generation does not panic as soon as one operation is checked or word
    problems are off; it then returns [num_questions] rows, each with a
    whole answer, a word-problem or operation label, and no answer or
    grade yet. *)
Theorem generate_total_when_op_enabled (cfg : QuizConfig) (ds : list draw) :
  (include_add cfg || include_sub cfg || include_mul cfg || include_div cfg ||
   negb (include_words cfg)) = true ->
  Forall valid_draw ds ->
  exists qs ds',
    generate_questions_with_ai_placeholders cfg ds = Some (qs, ds') /\
    length qs = num_questions cfg /\
    Forall (fresh_question (difficulty cfg)) qs.
Proof.
  intros Hops Hv. unfold generate_questions_with_ai_placeholders.
  destruct (gen_slots_total cfg (enabled_ops_of cfg) (num_questions cfg) 0 ds
              (enabled_ops_nonempty cfg Hops) Hv) as (qs & ai & ds' & Eg & Hlen).
  rewrite Eg.
  destruct (gen_slots_shape _ _ _ _ _ _ _ _ Hv Eg) as [Hall _].
  exists (if include_words cfg && Nat.eqb ai 0
          then update_at 0 (make_placeholder (difficulty cfg)) qs else qs), ds'.
  split; [reflexivity|].
  destruct (include_words cfg && Nat.eqb ai 0).
  - split; [rewrite length_update_at; exact Hlen|].
    apply force_placeholder_fresh. exact Hall.
  - auto.
Qed.

Lemma generate_total_when_op_enabled_witness :
  let cfg := mkConfig 6 Advanced false false false true true in
  let ds := [(1, 4); (0, 1); (1, 3); (2, 3); (1, 2); (0, 1); (1, 3); (2, 3);
             (3, 4); (0, 1); (1, 3); (2, 3); (1, 2); (0, 1); (1, 3); (2, 3);
             (1, 2); (0, 1); (1, 3); (2, 3); (1, 2); (0, 1); (1, 3); (2, 3)] in
  (include_add cfg || include_sub cfg || include_mul cfg || include_div cfg ||
   negb (include_words cfg)) = true /\
  Forall valid_draw ds /\
  exists qs ds',
    generate_questions_with_ai_placeholders cfg ds = Some (qs, ds') /\
    length qs = num_questions cfg /\
    Forall (fresh_question (difficulty cfg)) qs.
Proof.
  intros cfg ds.
  assert (Hv : Forall valid_draw ds) by (subst ds; solve_valid).
  split; [reflexivity|]. split; [exact Hv|].
  exact (generate_total_when_op_enabled cfg ds eq_refl Hv).
Defined.

(** ** Further properties of grading *)

Lemma on_check_answers_eq (st : AppState) :
  on_check_answers st =
  mkState (config st)
    (map (fun q => set_is_correct (Some (grade_question q)) q) (questions st))
    true (length (List.filter grade_question (questions st)), length (questions st)).
Proof. unfold on_check_answers. rewrite check_loop_spec. reflexivity. Qed.

(** Typing exactly the decimal text of the stored answer (the text the
    teacher view shows) grades the row correct. *)
Theorem check_answers_stored_text (st : AppState) (i : nat) (q : Question) :
  questions st !! i = Some q ->
  - 2 ^ 31 <= answer q <= 2 ^ 31 - 1 ->
  user_answer q = fmt_int (answer q) ->
  questions (on_check_answers st) !! i = Some (set_is_correct (Some true) q).
Proof.
  intros Hi Hr Hu. rewrite on_check_answers_eq. simpl.
  rewrite lookup_map_list, Hi. simpl. do 2 f_equal.
  unfold grade_question. rewrite Hu.
  destruct (fmt_int_sign_digits (answer q)) as [Hne Hall].
  rewrite (trim_sign_digits _ Hne Hall), (parse_i32_fmt_int _ Hr).
  now rewrite Z.eqb_refl.
Qed.

Lemma check_answers_stored_text_witness :
  let q := mkQuestion "63 ÷ 7 = ?" "Division" 9 "9" None in
  let st := mkState default_config [new_question "1 + 1 = ?" "Addition" 2; q]
              false (0%nat, 2%nat) in
  questions st !! 1%nat = Some q /\
  - 2 ^ 31 <= answer q <= 2 ^ 31 - 1 /\
  user_answer q = fmt_int (answer q) /\
  questions (on_check_answers st) !! 1%nat = Some (set_is_correct (Some true) q).
Proof.
  intros q st.
  assert (H1 : questions st !! 1%nat = Some q) by reflexivity.
  assert (H2 : - 2 ^ 31 <= answer q <= 2 ^ 31 - 1) by (simpl; lia).
  assert (H3 : user_answer q = fmt_int (answer q)) by reflexivity.
  split; [exact H1|]. split; [exact H2|]. split; [exact H3|].
  exact (check_answers_stored_text st 1 q H1 H2 H3).
Defined.

Lemma filter_length_full {A} (f : A -> bool) (l : list A) :
  (length (List.filter f l) <= length l)%nat /\
  (length (List.filter f l) = length l <-> Forall (fun x => f x = true) l).
Proof.
  induction l as [|x l [IHle IHeq]]; simpl.
  - split; [lia|]. split; auto.
  - destruct (f x) eqn:Ef; simpl.
    + split; [lia|]. rewrite Forall_cons. split.
      * intros H. split; [exact Ef|]. apply IHeq. lia.
      * intros [_ H]. apply IHeq in H. lia.
    + split; [lia|]. split.
      * intros H. lia.
      * intros H. inversion H as [|? ? Hx _]. congruence.
Qed.

(** After grading, the score never exceeds the question count, and it
    equals it exactly when every row is marked correct. *)
Theorem check_score_bounds (st : AppState) :
  let st' := on_check_answers st in
  (fst (score st') <= snd (score st'))%nat /\
  (fst (score st') = snd (score st') <->
   Forall (fun q => is_correct q = Some true) (questions st')).
Proof.
  intros st'. subst st'. rewrite on_check_answers_eq. simpl.
  destruct (filter_length_full grade_question (questions st)) as [Hle Heq].
  split; [exact Hle|]. rewrite Heq, Forall_map.
  split; intros H; (eapply Forall_impl; [exact H|]).
  - intros q Hq. simpl. now rewrite Hq.
  - intros q Hq. simpl in Hq. congruence.
Qed.

(** [on_reset_answers] keeps every prompt, kind and answer, clears every
    typed answer and grade, and zeroes the score; grading right after a
    reset scores nothing. *)
Theorem reset_answers_spec (st : AppState) :
  let st' := on_reset_answers st in
  config st' = config st /\
  score st' = (0%nat, length (questions st)) /\
  show_results st' = false /\
  Forall2 (fun q q' => prompt q' = prompt q /\ kind q' = kind q /\
                       answer q' = answer q /\ user_answer q' = "" /\
                       is_correct q' = None)
    (questions st) (questions st') /\
  score (on_check_answers st') = (0%nat, length (questions st)).
Proof.
  intros st'. subst st'. unfold on_reset_answers. simpl.
  rewrite length_map. split; [reflexivity|]. split; [reflexivity|].
  split; [reflexivity|]. split.
  - induction (questions st) as [|q qs IH]; simpl; constructor; auto.
  - rewrite on_check_answers_eq. simpl. rewrite !length_map. f_equal.
    induction (questions st) as [|q qs IH]; [reflexivity|]. exact IH.
Qed.

(** ** Settings handlers *)

Lemma parse_usize_fmt_int (z : Z) :
  0 <= z <= 2 ^ 32 - 1 -> parse_usize (fmt_int z) = Some z.
Proof.
  intros Hz. unfold parse_usize, fmt_int.
  destruct z as [|p|p]; [reflexivity| |lia].
  cbn [Z.to_int NilEmpty.string_of_int].
  destruct (fmt_pos_digits p) as (c & rest & Eb & Hd & Hv). rewrite Eb.
  inversion Hd as [|? ? Hc _]; subst.
  rewrite (proj2 (N.eqb_neq c 43)) by lia.
  rewrite Hv. rewrite (proj2 (Z.leb_le _ _)) by lia. reflexivity.
Qed.

(** The question-count input always leaves a count in [[5, 20]] and no
    other setting changed; text that is not a [usize] gives 10, and the
    decimal text of a number gives that number clamped to [[5, 20]]. *)
Theorem num_questions_input (value : string) (c : QuizConfig) :
  let c' := on_num_questions value c in
  (5 <= num_questions c' <= 20)%nat /\
  c' = set_num_questions (num_questions c') c /\
  (parse_usize value = None -> num_questions c' = 10%nat) /\
  (forall n, 0 <= n <= 2 ^ 32 - 1 -> value = fmt_int n ->
   num_questions c' = Z.to_nat (clamp n 5 20)).
Proof.
  intros c'. subst c'. unfold on_num_questions. simpl.
  split; [|split; [reflexivity|split]].
  - destruct (parse_usize value) as [v|]; unfold clamp;
      [destruct (v <? 5) eqn:E1; [|destruct (20 <? v) eqn:E2]|]; simpl;
      try (rewrite Z.ltb_ge in *; lia); lia.
  - intros ->. reflexivity.
  - intros n Hn ->. now rewrite parse_usize_fmt_int.
Qed.

Lemma num_questions_input_witness :
  (parse_usize "many" = None ->
   num_questions (on_num_questions "many" default_config) = 10%nat) /\
  (forall n, 0 <= n <= 2 ^ 32 - 1 -> "37" = fmt_int n ->
   num_questions (on_num_questions "37" default_config) = Z.to_nat (clamp n 5 20)) /\
  num_questions (on_num_questions "37" default_config) = Z.to_nat (clamp 37 5 20).
Proof.
  destruct (num_questions_input "many" default_config) as (_ & _ & H1 & _).
  destruct (num_questions_input "37" default_config) as (_ & _ & _ & H2).
  split; [exact H1|]. split; [exact H2|].
  apply H2; [lia | reflexivity].
Defined.

(** The difficulty select round-trips: the value it shows for a level
    selects that level again, and any other value selects [Easy]; no other
    setting changes. *)
Theorem difficulty_select_roundtrip (d : Difficulty) (c : QuizConfig) :
  on_difficulty_change (difficulty_code d) c = set_difficulty d c /\
  (forall v, v <> "moderate" -> v <> "advanced" ->
   on_difficulty_change v c = set_difficulty Easy c).
Proof.
  split.
  - destruct d; reflexivity.
  - intros v H1 H2. unfold on_difficulty_change.
    rewrite (proj2 (String.eqb_neq _ _) H1), (proj2 (String.eqb_neq _ _) H2).
    reflexivity.
Qed.

Lemma difficulty_select_roundtrip_witness :
  "hard" <> "moderate" /\ "hard" <> "advanced" /\
  on_difficulty_change "hard" default_config = set_difficulty Easy default_config.
Proof.
  assert (H1 : "hard" <> "moderate") by discriminate.
  assert (H2 : "hard" <> "advanced") by discriminate.
  split; [exact H1|]. split; [exact H2|].
  exact (proj2 (difficulty_select_roundtrip Advanced default_config) "hard" H1 H2).
Defined.

(** ** The fill of the word-problem rows *)

Lemma fetch_ai_word_problem_spec cfg resp p a k :
  fetch_ai_word_problem cfg resp = Some (p, a, k) ->
  resp = Some (true, Some (p, a)) /\ k = word_kind (difficulty cfg).
Proof.
  unfold fetch_ai_word_problem.
  destruct resp as [[[|] [[p' a']|]]|]; simpl; try discriminate.
  intros E. injection E as <- <- <-. auto.
Qed.









(** Regenerating an in-range row with the outcome of a fetch gives it the
    word-problem label of the current difficulty, and either the prompt
    and answer of the OK response as they are, or, when the fetch failed,
    the fallback sticker problem. *)
Theorem regen_row_content (idx : nat) (resp : option (bool * option (string * Z)))
    (st : AppState) (ds : list draw) (q : Question) :
  Forall valid_draw ds ->
  questions st !! idx = Some q ->
  let r := on_regen_ai idx (fetch_ai_word_problem (config st) resp) st ds in
  Forall valid_draw (snd r) /\
  exists q', questions (fst r) !! idx = Some q' /\
    kind q' = word_kind (difficulty (config st)) /\
    (resp = Some (true, Some (prompt q', answer q')) \/
     (fetch_ai_word_problem (config st) resp = None /\
      exists x y, 3 <= x <= 15 /\ 2 <= y <= 10 /\
                  prompt q' = sticker_prompt x y /\ answer q' = x + y)).
Proof.
  intros Hv Hq r. subst r. unfold on_regen_ai.
  destruct (resolve_word_problem (config st) (fetch_ai_word_problem (config st) resp) ds)
    as [[[p a] k] ds'] eqn:Er.
  rewrite Hq. simpl.
  assert (Hlt := lookup_lt_Some _ _ _ Hq).
  assert (Hrow : forall p a k, questions st !! idx = Some q ->
            <[idx:=mkQuestion p k a (user_answer q) (is_correct q)]> (questions st) !! idx =
            Some (mkQuestion p k a (user_answer q) (is_correct q)))
    by (intros; apply list_lookup_insert_eq; exact Hlt).
  unfold resolve_word_problem in Er.
  destruct (fetch_ai_word_problem (config st) resp) as [[[p0 a0] k0]|] eqn:Ef.
  - injection Er as -> -> -> <-.
    apply fetch_ai_word_problem_spec in Ef as [Eresp Hk].
    split; [exact Hv|]. eexists. split; [apply Hrow; exact Hq|].
    simpl. split; [exact Hk|]. left. exact Eresp.
  - unfold generate_fallback_word_problem in Er.
    destruct (rand_int 3 15 ds) as [x ds1] eqn:E1.
    destruct (rand_int 2 10 ds1) as [y ds2] eqn:E2.
    injection Er as <- <- <- <-.
    destruct (rand_int_spec 3 15 ds x ds1 Hv ltac:(lia) E1) as [Hx Hv1].
    destruct (rand_int_spec 2 10 ds1 y ds2 Hv1 ltac:(lia) E2) as [Hy Hv2].
    split; [exact Hv2|]. eexists. split; [apply Hrow; exact Hq|].
    simpl. split; [reflexivity|]. right. split; [reflexivity|].
    exists x, y. auto.
Qed.

Lemma regen_row_content_witness :
  let st := mkState (mkConfig 5 Moderate true false false false true)
              [mkQuestion "1 + 2 = ?" "Addition" 3 "" None;
               mkQuestion loading_prompt (word_kind Moderate) 0 "7" (Some false)]
              true (0%nat, 2%nat) in
  let q := mkQuestion loading_prompt (word_kind Moderate) 0 "7" (Some false) in
  let ds := [(1, 2); (1, 3)] in
  Forall valid_draw ds /\ questions st !! 1%nat = Some q /\
  let r := on_regen_ai 1 (fetch_ai_word_problem (config st) None) st ds in
  Forall valid_draw (snd r) /\
  exists q', questions (fst r) !! 1%nat = Some q' /\
    kind q' = word_kind (difficulty (config st)) /\
    (None = Some (true, Some (prompt q', answer q')) \/
     (fetch_ai_word_problem (config st) None = None /\
      exists x y, 3 <= x <= 15 /\ 2 <= y <= 10 /\
                  prompt q' = sticker_prompt x y /\ answer q' = x + y)).
Proof.
  intros st q ds.
  assert (Hv : Forall valid_draw ds) by (subst ds; solve_valid).
  assert (Hq : questions st !! 1%nat = Some q) by reflexivity.
  split; [exact Hv|]. split; [exact Hq|].
  exact (regen_row_content 1 None st ds q Hv Hq).
Defined.

(** ** The default settings and the checkboxes *)

(** With the settings the page starts with, generation never panics and
    gives ten fresh rows, at least one of them a word problem. *)
Theorem default_quiz_generates (ds : list draw) :
  Forall valid_draw ds ->
  exists qs ds',
    generate_questions_with_ai_placeholders default_config ds = Some (qs, ds') /\
    length qs = 10%nat /\ Forall (fresh_question Easy) qs /\
    Exists (fun q => is_word q = true) qs.
Proof.
  intros Hv.
  assert (Hops : enabled_ops_of default_config <> []) by discriminate.
  destruct (gen_slots_total default_config _ 10 0 ds Hops Hv)
    as (qs0 & ai & ds' & Eg & Hlen).
  destruct (gen_slots_shape _ _ _ _ _ _ _ _ Hv Eg) as [Hall _].
  destruct (gen_slots_word _ _ _ _ _ _ _ _ Eg) as [_ Hex].
  unfold generate_questions_with_ai_placeholders. simpl num_questions.
  rewrite Eg. simpl include_words. cbn [andb].
  destruct (Nat.eqb_spec ai 0) as [-> | Hai].
  - eexists _, ds'. split; [reflexivity|].
    destruct qs0 as [|q rest]; [discriminate|].
    split; [rewrite length_update_at; exact Hlen|].
    split; [apply (force_placeholder_fresh Easy); exact Hall|].
    unfold update_at. simpl. constructor 1. reflexivity.
  - exists qs0, ds'. split; [reflexivity|]. split; [exact Hlen|].
    split; [exact Hall|].
    destruct Hex as [Hai' | Hex]; [lia|].
    eapply Exists_impl; [exact Hex|].
    intros q Hk. unfold is_word. rewrite Hk. reflexivity.
Qed.

Lemma default_quiz_generates_witness :
  Forall valid_draw [(0, 1); (1, 2)] /\
  exists qs ds',
    generate_questions_with_ai_placeholders default_config [(0, 1); (1, 2)] = Some (qs, ds') /\
    length qs = 10%nat /\ Forall (fresh_question Easy) qs /\
    Exists (fun q => is_word q = true) qs.
Proof.
  assert (Hv : Forall valid_draw [(0, 1); (1, 2)]) by solve_valid.
  split; [exact Hv|]. exact (default_quiz_generates _ Hv).
Defined.

Lemma gen_slots_panic cfg ops n ai ds :
  gen_slot cfg ops ai ds = None -> gen_slots cfg ops (S n) ai ds = None.
Proof. intros H. simpl. rewrite H. reflexivity. Qed.

Lemma gen_slot_no_ops_panic cfg ai p q ds :
  include_words cfg = true -> 0 <= p < q -> q <= 4 * p ->
  gen_slot cfg [] ai ((p, q) :: ds) = None.
Proof.
  intros Hw Hpq Hq. unfold gen_slot. rewrite Hw.
  unfold rand_int at 1. simpl next_draw. cbv beta iota. cbn [fst snd].
  change (3 - 0 + 1) with 4.
  replace (0 + Z.quot (p * 4) q =? 0) with false.
  2:{ symmetry. apply Z.eqb_neq. rewrite Z.add_0_l.
      assert (1 <= Z.quot (p * 4) q).
      { rewrite Z.quot_div_nonneg by lia. apply Z.div_le_lower_bound; lia. }
      lia. }
  destruct (rand_int 0 _ ds) as [idx ds2].
  unfold vec_index. destruct (idx <? 0); [reflexivity|].
  destruct (Z.to_nat idx); reflexivity.
Qed.

(** From the start settings, unticking Addition and Subtraction leaves no
    operation and word problems on; Generate then panics as soon as the
    first [Math::random()] draw is at least 1/4 (the first slot is not a
    placeholder), whatever follows. *)
Theorem untick_add_sub_panics (st : AppState)
    (resps : list (option (bool * option (string * Z))))
    (p q : Z) (ds : list draw) :
  config st = toggle_checkbox "sub" false (toggle_checkbox "add" false default_config) ->
  0 <= p < q -> q <= 4 * p ->
  on_generate st resps ((p, q) :: ds) = None.
Proof.
  intros Hc Hpq Hq. unfold on_generate. rewrite Hc.
  unfold generate_questions_with_ai_placeholders.
  change (num_questions (toggle_checkbox "sub" false (toggle_checkbox "add" false default_config)))
    with (S 9).
  change (enabled_ops_of (toggle_checkbox "sub" false (toggle_checkbox "add" false default_config)))
    with (@nil BaseOp).
  rewrite gen_slots_panic by (apply gen_slot_no_ops_panic; [reflexivity | lia | lia]).
  reflexivity.
Qed.

Lemma untick_add_sub_panics_witness :
  let st := mkState (toggle_checkbox "sub" false (toggle_checkbox "add" false default_config))
              [] false (0%nat, 0%nat) in
  config st = toggle_checkbox "sub" false (toggle_checkbox "add" false default_config) /\
  0 <= 1 < 2 /\ 2 <= 4 * 1 /\
  on_generate st [] [(1, 2); (0, 1)] = None.
Proof.
  intros st.
  assert (Hc : config st = toggle_checkbox "sub" false (toggle_checkbox "add" false default_config))
    by reflexivity.
  assert (H1 : 0 <= 1 < 2) by lia.
  assert (H2 : 2 <= 4 * 1) by lia.
  split; [exact Hc|]. split; [exact H1|]. split; [exact H2|].
  exact (untick_add_sub_panics st [] 1 2 [(0, 1)] Hc H1 H2).
Defined.

(** ** Padding around a typed answer *)

Lemma bytes_of_string_of_bytes (l : list N) :
  Forall (fun b => (b < 256)%N) l -> bytes_of (string_of_bytes l) = l.
Proof.
  intros H. unfold bytes_of, string_of_bytes.
  rewrite list_ascii_of_string_of_list_ascii, map_map.
  induction H as [|b l Hb _ IH]; [reflexivity|]. simpl.
  rewrite N_ascii_embedding by exact Hb. f_equal. exact IH.
Qed.

Lemma strip_ws_ascii (b : N) (l : list N) :
  In b [9; 10; 11; 12; 13; 32]%N ->
  strip_ws whitespace_utf8 (b :: l) = Some l /\
  strip_ws (map (@rev N) whitespace_utf8) (b :: l) = Some l.
Proof.
  intros H. simpl in H.
  repeat (destruct H as [<- | H]; [split; reflexivity|]). destruct H.
Qed.

Lemma trim_start_ws_prefix (encs : list (list N)) (pre l : list N) (k : nat) :
  (forall b l, In b [9; 10; 11; 12; 13; 32]%N -> strip_ws encs (b :: l) = Some l) ->
  Forall (fun b => In b [9; 10; 11; 12; 13; 32]%N) pre ->
  trim_start_bytes (length pre + k) encs (pre ++ l) = trim_start_bytes k encs l.
Proof.
  intros Hs Hpre. induction Hpre as [|b pre Hb _ IH]; [reflexivity|].
  simpl. rewrite (Hs b (pre ++ l)%list Hb). exact IH.
Qed.

Lemma trim_start_stop (encs : list (list N)) (c : N) (l : list N) (k : nat) :
  (forall e, In e encs -> exists x e', e = x :: e' /\ x <> c) ->
  trim_start_bytes k encs (c :: l) = c :: l.
Proof.
  intros H. destruct k; [reflexivity|]. simpl. rewrite strip_ws_none by exact H.
  reflexivity.
Qed.

Lemma trim_padded (pre post : list N) (s : string) :
  Forall (fun b => In b [9; 10; 11; 12; 13; 32]%N) pre ->
  Forall (fun b => In b [9; 10; 11; 12; 13; 32]%N) post ->
  bytes_of s <> [] -> Forall (fun c => (45 <= c <= 57)%N) (bytes_of s) ->
  trim (string_of_bytes (pre ++ bytes_of s ++ post)) = s.
Proof.
  intros Hpre Hpost Hne Hall. unfold trim.
  assert (Hws256 : forall l, Forall (fun b => In b [9; 10; 11; 12; 13; 32]%N) l ->
                   Forall (fun b => (b < 256)%N) l).
  { intros l Hl. eapply Forall_impl; [exact Hl|]. intros b Hb. simpl in Hb.
    repeat (destruct Hb as [<- | Hb]; [lia|]). destruct Hb. }
  rewrite bytes_of_string_of_bytes.
  2:{ apply Forall_app; split; [auto|]. apply Forall_app; split; [|auto].
      unfold bytes_of. apply List.Forall_forall. intros b Hb.
      apply in_map_iff in Hb as (a & <- & _). apply N_ascii_bounded. }
  rewrite length_app.
  rewrite (trim_start_ws_prefix _ _ _ _ (fun b l Hb => proj1 (strip_ws_ascii b l Hb)) Hpre).
  destruct (bytes_of s) as [|c r] eqn:Eb; [congruence|].
  inversion Hall as [|? ? Hc _]; subst.
  rewrite <- app_comm_cons.
  rewrite trim_start_stop by (apply ws_first_bytes; exact Hc).
  rewrite app_comm_cons, rev_app_distr.
  replace (length ((c :: r) ++ post)) with (length (rev post) + length (rev (c :: r)))%nat
    by (rewrite !length_app, !length_rev; lia).
  rewrite (trim_start_ws_prefix _ _ _ _ (fun b l Hb => proj2 (strip_ws_ascii b l Hb))
             (Forall_rev Hpost)).
  destruct (rev (c :: r)) as [|c' r'] eqn:Er.
  { apply (f_equal (@length N)) in Er. rewrite length_rev in Er. discriminate. }
  assert (Hc' : (45 <= c' <= 57)%N).
  { apply Forall_rev in Hall. rewrite Er in Hall. now inversion Hall. }
  rewrite trim_start_stop by (apply ws_last_bytes; exact Hc').
  rewrite <- Er, rev_involutive, <- Eb. apply string_of_bytes_of.
Qed.

(** Grading accepts the right number with any run of ASCII spaces, tabs,
    line feeds or carriage returns before and after it. *)
Theorem grade_accepts_padded_answer (q : Question) (pre post : list N) :
  Forall (fun b => In b [9; 10; 11; 12; 13; 32]%N) pre ->
  Forall (fun b => In b [9; 10; 11; 12; 13; 32]%N) post ->
  - 2 ^ 31 <= answer q <= 2 ^ 31 - 1 ->
  user_answer q = string_of_bytes (pre ++ bytes_of (fmt_int (answer q)) ++ post) ->
  grade_question q = true.
Proof.
  intros Hpre Hpost Hr Hu. unfold grade_question. rewrite Hu.
  destruct (fmt_int_sign_digits (answer q)) as [Hne Hall].
  rewrite (trim_padded _ _ _ Hpre Hpost Hne Hall), (parse_i32_fmt_int _ Hr).
  now rewrite Z.eqb_refl.
Qed.

Lemma grade_accepts_padded_answer_witness :
  let q := mkQuestion "4 × 3 = ?" "Multiplication" 12 "  12
" None in
  Forall (fun b => In b [9; 10; 11; 12; 13; 32]%N) [32; 32]%N /\
  Forall (fun b => In b [9; 10; 11; 12; 13; 32]%N) [10]%N /\
  - 2 ^ 31 <= answer q <= 2 ^ 31 - 1 /\
  user_answer q = string_of_bytes ([32; 32]%N ++ bytes_of (fmt_int (answer q)) ++ [10]%N)%list /\
  grade_question q = true.
Proof.
  intros q.
  assert (H1 : Forall (fun b => In b [9; 10; 11; 12; 13; 32]%N) [32; 32]%N)
    by (repeat constructor; simpl; tauto).
  assert (H2 : Forall (fun b => In b [9; 10; 11; 12; 13; 32]%N) [10]%N)
    by (repeat constructor; simpl; tauto).
  assert (H3 : - 2 ^ 31 <= answer q <= 2 ^ 31 - 1) by (simpl; lia).
  assert (H4 : user_answer q = string_of_bytes ([32; 32]%N ++ bytes_of (fmt_int (answer q)) ++ [10]%N)%list)
    by reflexivity.
  split; [exact H1|]. split; [exact H2|]. split; [exact H3|]. split; [exact H4|].
  exact (grade_accepts_padded_answer q _ _ H1 H2 H3 H4).
Defined.

(** ** The fetch and the word-row scan *)




